(** * analyze-block-production.py: daily block production over the last 30 days

    A shallow embedding of
    [website/docs/developers/scripts/archive-queries/python/analyze-block-production.py].
    The script is a straight line: [psycopg2.connect], one SQL aggregate sent
    through [pd.read_sql_query], [print(df)], [df.plot], [plt.title],
    [plt.show].  Two things are modelled:

    - the SQL text bound to [query], as a function from the contents of the
      [blocks] table to the rows PostgreSQL answers with (module [Sql] for the
      relational operators, module [Archive] for this query);
    - the script around it, as a run over an outside world that decides
      whether each library call returns or raises (module [Script]).  *)

From Stdlib Require Import ZArith QArith Lia.
From stdpp Require Import base decidable numbers list sorting gmap.

Close Scope Q_scope.
Local Open Scope Z_scope.

(** ** Relational operators *)

Module Sql.

Section Operators.
Context {A : Type}.

(** [WHERE p]: the rows on which the condition holds. *)
Definition where_ (p : A → Prop) `{!∀ r, Decision (p r)} (rows : list A) : list A :=
  filter p rows.

(** [GROUP BY key]: one group for every distinct value of the key among the
    rows, holding all the rows with that value.  A key without rows has no
    group. *)
Definition group_by (key : A → Z) (rows : list A) : list (Z * list A) :=
  (λ k, (k, filter (λ r, key r = k) rows)) <$> remove_dups (key <$> rows).

(** [COUNT( * )]: the number of rows of the group. *)
Definition count_star (rows : list A) : Z := Z.of_nat (length rows).

(** [COUNT(DISTINCT col)]: the number of different non-NULL values of the
    column in the group; a NULL ([None]) is not a value. *)
Definition count_distinct (col : A → option Z) (rows : list A) : Z :=
  Z.of_nat (size (list_to_set (omap col rows) : gset Z)).

(** [ORDER BY key] (ascending): a sort on the key. *)
Definition key_le (key : A → Z) (a b : A) : Prop := key a ≤ key b.

Global Instance key_le_dec key a b : Decision (key_le key a b).
Proof. unfold key_le. apply _. Defined.

Definition order_by (key : A → Z) (rows : list A) : list A :=
  merge_sort (key_le key) rows.
End Operators.

End Sql.

(** ** The archive query *)

Module Archive.

(** Modelled from the spec: the declaration of the [blocks] table is not part
    of the sources.  The query reads two columns: [creator_id] (the producer
    identifier, NULL when missing) and [timestamp] (milliseconds since the Unix
    epoch; [timestamp::bigint] is its value as a 64-bit integer). *)
Record block := Block {
  creator_id : option Z;
  timestamp : Z
}.

(** A row of the answer, with the column names of the [SELECT] list. *)
Record DailyProductionRecord := Daily {
  date : Z;
  blocks_per_day : Z;
  unique_producers : Z
}.

Global Instance DailyProductionRecord_eq_dec : EqDecision DailyProductionRecord.
Proof. solve_decision. Defined.
Global Instance block_eq_dec : EqDecision block.
Proof. solve_decision. Defined.

(** The order of the answer, on records. *)
Definition date_lt (a b : DailyProductionRecord) : Prop := date a < date b.

(** The sum of a column of the answer. *)
Definition total (col : list Z) : Z := foldr Z.add 0 col.

(** Instants ([timestamptz], the value of [now()]) are microseconds since the
    Unix epoch.  A [date] is a day number: days since 1970-01-01 on the
    calendar of the session's time zone. *)
Definition USECS_PER_SEC : Z := 1000000.
Definition SECS_PER_DAY : Z := 86400.

(** The session's time zone, as PostgreSQL consults it.  [utc_offset s] is the
    offset from UTC, in seconds east, in force at the instant [s] (seconds
    since the epoch): it turns an instant into a wall-clock reading.
    [local_offset l] is the offset the zone assigns to the wall-clock reading
    [l] (seconds, counted as if the wall clock were UTC): it turns a reading
    back into an instant, and settles the readings that a change of offset
    skips or repeats.  The zone is the server's setting, not the script's. *)
Record zone := Zone {
  utc_offset : Z → Z;
  local_offset : Z → Z
}.

(** A zone that keeps one offset, such as UTC. *)
Definition fixed_offset (off : Z) : zone := Zone (λ _, off) (λ _, off).
Definition UTC : zone := fixed_offset 0.

(** The calendar of the zone never steps back a day: a later instant is never
    on an earlier date.  It holds where the offset changes in the small hours
    by an hour, and fails where a clock is set back across midnight. *)
Definition calendar_never_steps_back (tz : zone) : Prop :=
  ∀ s s', s ≤ s' →
    (s + utc_offset tz s) `div` SECS_PER_DAY ≤ (s' + utc_offset tz s') `div` SECS_PER_DAY.

(** The wall-clock reading [l] exists in the zone: the instant the zone gives
    it shows that reading.  It fails for the readings a change of offset
    skips. *)
Definition reads_back (tz : zone) (l : Z) : Prop :=
  utc_offset tz (l - local_offset tz l) = local_offset tz l.

(** The rules of America/New_York around the end of daylight saving time on
    1 November 2026, 06:00 UTC: four hours behind UTC before, five after; a
    wall-clock reading from 01:00 of that day on is read as standard time. *)
Definition new_york_autumn_2026 : zone :=
  Zone (λ s, if decide (s < 1793512800) then -14400 else -18000)
       (λ l, if decide (l < 1793494800) then -14400 else -18000).

Section Query.
(** [now_us] is [now()]; [tz] is the session's time zone. *)
Context (now_us : Z) (tz : zone).

(** The wall-clock reading of an instant in the session's zone: whole seconds
    and the microseconds beside them. *)
Definition wall_clock (t_us : Z) : Z * Z :=
  let s := t_us `div` USECS_PER_SEC in
  (s + utc_offset tz s, t_us `mod` USECS_PER_SEC).

(** The instant of a wall-clock reading. *)
Definition instant_of (l fsec : Z) : Z :=
  (l - local_offset tz l) * USECS_PER_SEC + fsec.

(** [t - interval 'n days']: the days are taken off the calendar date of the
    wall-clock reading, the time of day is kept, and the result is read back
    in the zone.  Across a change of offset this is not [n * 86400] s. *)
Definition minus_days (t_us : Z) (n : Z) : Z :=
  let '(l, fsec) := wall_clock t_us in
  instant_of (l - n * SECS_PER_DAY) fsec.

(** [now() - interval '30 days'] *)
Definition window_start_us : Z := minus_days now_us 30.

(** [extract(epoch from t)]: seconds since the epoch, with the microseconds
    as fraction; an exact decimal ([numeric]), here a rational. *)
Definition extract_epoch (t_us : Z) : Q := t_us # (Z.to_pos USECS_PER_SEC).

(** [extract(epoch from now() - interval '30 days') * 1000] *)
Definition window_start : Q :=
  (extract_epoch window_start_us * inject_Z 1000)%Q.

(** [WHERE timestamp > extract(epoch from now() - interval '30 days') * 1000] *)
Definition in_window (r : block) : Prop :=
  (window_start < inject_Z (timestamp r))%Q.

Global Instance in_window_dec r : Decision (in_window r).
Proof.
  unfold in_window.
  destruct (Qlt_le_dec window_start (inject_Z (timestamp r))) as [Hlt|Hle].
  - left; exact Hlt.
  - right; intros Hlt; exact (Qlt_not_le _ _ Hlt Hle).
Defined.

(** [to_timestamp(s)]: the instant [s] seconds after the epoch. *)
Definition to_timestamp (s : Z) : Z := s * USECS_PER_SEC.

(** [DATE(t)]: the calendar day of the wall-clock reading of the instant. *)
Definition DATE (t_us : Z) : Z := (wall_clock t_us).1 `div` SECS_PER_DAY.

(** [DATE(to_timestamp(timestamp::bigint / 1000))]; the division of two
    integers in PostgreSQL truncates toward zero. *)
Definition date_of (r : block) : Z := DATE (to_timestamp (timestamp r `quot` 1000)).

(** The [SELECT] list, evaluated on one group. *)
Definition select (g : Z * list block) : DailyProductionRecord :=
  {| date := g.1;
     blocks_per_day := Sql.count_star g.2;
     unique_producers := Sql.count_distinct creator_id g.2 |}.

(** [SELECT ... GROUP BY date ORDER BY date], on the rows that passed the
    [WHERE] clause.  [date] names the first output column: the two columns the
    query reads from [blocks] have other names. *)
Definition aggregate (rows : list block) : list DailyProductionRecord :=
  Sql.order_by date (select <$> Sql.group_by date_of rows).

(** The text bound to [query], on the contents of [blocks]. *)
Definition query (blocks : list block) : list DailyProductionRecord :=
  aggregate (Sql.where_ in_window blocks).

(** The rows that [query] puts in the group of day [d]: those that pass the
    [WHERE] clause and fall on that day. *)
Definition group_of (blocks : list block) (d : Z) : list block :=
  filter (λ r, date_of r = d) (Sql.where_ in_window blocks).

(** Row [r] is aggregated: the answer has a record for its day, and the row
    is in the group that record counts. *)
Definition aggregated (blocks : list block) (r : block) : Prop :=
  ∃ rec, rec ∈ query blocks ∧ date rec = date_of r ∧ r ∈ group_of blocks (date rec).

(** The window as the specification writes it, [[now − 30 days, now]]: not
    before its start, and not after [now()]. *)
Definition within_trailing_window (r : block) : Prop :=
  window_start_us ≤ 1000 * timestamp r ∧ 1000 * timestamp r ≤ now_us.
End Query.

End Archive.

Import Archive.

(** ** The script *)

Module Script.

(** The calls that leave the process.  The first six are the script's, in
    program order; [Close] is [conn.close()], which the driver offers. *)
Inductive call := Connect | ReadSqlQuery | Print | Plot | Title | Show | Close.

Global Instance call_eq_dec : EqDecision call.
Proof. solve_decision. Defined.

(** What [psycopg2.connect] meets at [localhost:5432]. *)
Inductive store_answer := Accepted | Unreachable | AuthenticationRejected.

Global Instance store_answer_eq_dec : EqDecision store_answer.
Proof. solve_decision. Defined.

(** How the interpreter hands text to standard output.  Unbuffered (started
    with [-u]), every write goes to the device at once.  Line-buffered (a
    terminal), the text goes into a buffer that is written out at every end of
    line, so within the [print] that wrote it.  Block-buffered (a pipe or a
    file), the text waits in the buffer until it is full or the interpreter
    exits; a table as [print(df)] renders it is well below its size. *)
Inductive buffering := Unbuffered | LineBuffered | BlockBuffered.

Global Instance buffering_eq_dec : EqDecision buffering.
Proof. solve_decision. Defined.

(** The outside of one run: the store (its clock, time zone, [blocks] table
    and its answer to the connection), the standard output the process was
    given ([stdout_fails]: the device refuses what is written to it), and for
    the library calls whether they raise.  These are inputs; the script has
    no say in them. *)
Record world := World {
  clock : Z;
  time_zone : zone;
  table : list block;
  store : store_answer;
  query_fails : bool;
  stdout_mode : buffering;
  stdout_fails : bool;
  plot_fails : bool;
  title_fails : bool;
  show_fails : bool
}.

Definition DataFrame := list DailyProductionRecord.

(** What an observer sees, in order: calls as they are made, tables as they
    reach standard output. *)
Inductive event := Call (c : call) | Stdout (df : DataFrame).

Global Instance event_eq_dec : EqDecision event.
Proof. solve_decision. Defined.

(** An exception, named by the call that raised it. *)
Inductive exception := Raised (c : call).

(** [held] is the text waiting in the buffer of standard output. *)
Record state := State {
  events : list event;
  db : list block;
  held : list DataFrame
}.

(** Computations of the script: they read the world, extend the state, and
    return or raise. *)
Definition M (A : Type) : Type := world → state → state * (exception + A).

Global Instance M_ret : MRet M := λ A x _ s, (s, inr x).
Global Instance M_bind : MBind M := λ A B f m w s,
  match m w s with
  | (s', inl e) => (s', inl e)
  | (s', inr x) => f x w s'
  end.

Definition emit (e : event) : M unit :=
  λ _ s, ({| events := events s ++ [e]; db := db s; held := held s |}, inr ()).

(** A library call: it is made, then raises if the world says so. *)
Definition answer (c : call) (fails : world → bool) : M unit :=
  λ w s, if fails w then (s, inl (Raised c)) else (s, inr ()).

Definition calling (c : call) (fails : world → bool) : M unit :=
  emit (Call c);; answer c fails.

Inductive connection := Conn.

(** [psycopg2.connect(host=..., port=..., database=..., user=..., password=...)] *)
Definition psycopg2_connect : M connection :=
  calling Connect (λ w, bool_decide (store w ≠ Accepted));; mret Conn.

(** [pd.read_sql_query(query, conn)]: the store evaluates the text on its
    table at its clock; a [SELECT] leaves the table as it is. *)
Definition evaluate : M DataFrame :=
  λ w s, (s, inr (query (clock w) (time_zone w) (db s))).

Definition pd_read_sql_query (conn : connection) : M DataFrame :=
  calling ReadSqlQuery query_fails;; evaluate.

(** Writing a table to standard output.  Block-buffered, it is held and the
    write returns.  Otherwise it goes to the device now; if the device
    refuses it the write raises, and a line-buffered output keeps the text in
    its buffer. *)
Definition hold (df : DataFrame) (s : state) : state :=
  {| events := events s; db := db s; held := held s ++ [df] |}.

Definition write (df : DataFrame) : M unit :=
  λ w s,
    match stdout_mode w with
    | BlockBuffered => (hold df s, inr ())
    | LineBuffered =>
        if stdout_fails w then (hold df s, inl (Raised Print)) else emit (Stdout df) w s
    | Unbuffered =>
        if stdout_fails w then (s, inl (Raised Print)) else emit (Stdout df) w s
    end.

Definition print (df : DataFrame) : M unit :=
  emit (Call Print);; write df.

Definition df_plot (df : DataFrame) : M unit := calling Plot plot_fails.
Definition plt_title : M unit := calling Title title_fails.
Definition plt_show : M unit := calling Show show_fails.

(** The script, top to bottom. *)
Definition main : M unit :=
  conn ← psycopg2_connect;
  df ← pd_read_sql_query conn;
  print df;;
  df_plot df;;
  plt_title;;
  plt_show.

(** A run of the interpreter on the script.  An exception nobody catches goes
    to standard error and makes the exit status 1.  On the way out, with or
    without an exception, the interpreter writes what standard output still
    holds; if the device refuses it the text is lost and the exit status is
    120. *)
Record outcome := Outcome {
  trace : list event;
  table_after : list block;
  stderr : option exception;
  exit_status : Z
}.

Definition flush_at_exit (w : world) (s : state) : list event * bool :=
  match held s with
  | [] => (events s, true)
  | dfs => if stdout_fails w then (events s, false)
           else (events s ++ (Stdout <$> dfs), true)
  end.

Definition run (w : world) : outcome :=
  let '(s, r) := main w {| events := []; db := table w; held := [] |} in
  let '(t, flushed) := flush_at_exit w s in
  {| trace := t;
     table_after := db s;
     stderr := match r with inl e => Some e | inr _ => None end;
     exit_status := if flushed then match r with inl _ => 1 | inr _ => 0 end else 120 |}.

(** The value [df] is bound to when [pd.read_sql_query] returns. *)
Definition df_of (w : world) : DataFrame := query (clock w) (time_zone w) (table w).

(** The outcome of a run that stopped at call [c] after the events [t]. *)
Definition failed (t : list event) (c : call) (blocks : list block) : outcome :=
  {| trace := t; table_after := blocks; stderr := Some (Raised c); exit_status := 1 |}.

(** What happens from [df.plot] on: the calls made and the exception, if one
    of them raises. *)
Definition after_print (w : world) : list event * option exception :=
  if plot_fails w then ([Call Plot], Some (Raised Plot))
  else if title_fails w then ([Call Plot; Call Title], Some (Raised Title))
  else if show_fails w then ([Call Plot; Call Title; Call Show], Some (Raised Show))
  else ([Call Plot; Call Title; Call Show], None).

(** Standard output: the tables printed, in order. *)
Definition stdout_of (t : list event) : list DataFrame :=
  omap (λ e, match e with Stdout df => Some df | Call _ => None end) t.

Definition stdout (o : outcome) : list DataFrame := stdout_of (trace o).

(** The calls the script makes when none raises, in program order. *)
Definition program : list call := [Connect; ReadSqlQuery; Print; Plot; Title; Show].

(** Whether a call raises in a world. *)
Definition raises (w : world) (c : call) : bool :=
  match c with
  | Connect => bool_decide (store w ≠ Accepted)
  | ReadSqlQuery => query_fails w
  | Print => bool_decide (stdout_mode w ≠ BlockBuffered) && stdout_fails w
  | Plot => plot_fails w
  | Title => title_fails w
  | Show => show_fails w
  | Close => false
  end.

(** A list of calls made one after the other, up to and with the first that
    raises. *)
Fixpoint until_raise (r : call → bool) (p : list call) : list call :=
  match p with
  | [] => []
  | c :: p => c :: (if r c then [] else until_raise r p)
  end.

(** The calls of a trace, in order. *)
Definition calls_of (t : list event) : list call :=
  omap (λ e, match e with Call c => Some c | Stdout _ => None end) t.

(** The names the specification gives to failures, by the call that raised. *)
Inductive error_kind := ConnectionError | QueryError | PresentationError.

Definition kind_of (e : exception) : error_kind :=
  match e with
  | Raised Connect | Raised Close => ConnectionError
  | Raised ReadSqlQuery => QueryError
  | Raised Print | Raised Plot | Raised Title | Raised Show => PresentationError
  end.

End Script.

(** * Properties *)

(** ** The relational operators *)

Section SqlFacts.
Context {A : Type}.
Implicit Types (key : A → Z) (rows : list A).

Lemma elem_of_group_by key rows k g :
  (k, g) ∈ Sql.group_by key rows ↔
  k ∈ key <$> rows ∧ g = filter (λ r, key r = k) rows.
Proof.
  unfold Sql.group_by. rewrite list_elem_of_fmap. split.
  - intros (k' & Heq & Hin). inversion Heq; subst.
    by rewrite elem_of_remove_dups in Hin.
  - intros [Hin ->]. exists k. by rewrite elem_of_remove_dups.
Qed.

Lemma group_by_keys key rows :
  (Sql.group_by key rows).*1 = remove_dups (key <$> rows).
Proof.
  unfold Sql.group_by. rewrite <-list_fmap_compose.
  induction (remove_dups (key <$> rows)) as [|k ks IH]; [done|].
  by rewrite !fmap_cons, IH.
Qed.

Lemma group_by_NoDup key rows : NoDup (Sql.group_by key rows).*1.
Proof. rewrite group_by_keys. apply NoDup_remove_dups. Qed.

(** No group is empty: a key is a group's key because a row has it. *)
Lemma group_by_nonempty key rows k g :
  (k, g) ∈ Sql.group_by key rows → g ≠ [].
Proof.
  rewrite elem_of_group_by, list_elem_of_fmap.
  intros [(r & -> & Hr) ->] Hnil.
  assert (r ∈ filter (λ r', key r' = key r) rows) as Hin
    by by apply list_elem_of_filter.
  rewrite Hnil in Hin. by apply not_elem_of_nil in Hin.
Qed.

Lemma group_by_perm key rows rows' k :
  rows ≡ₚ rows' →
  filter (λ r, key r = k) rows ≡ₚ filter (λ r, key r = k) rows'.
Proof. intros Hp. by rewrite Hp. Qed.

Lemma count_star_pos rows : rows ≠ [] → 1 ≤ Sql.count_star rows.
Proof. unfold Sql.count_star. destruct rows; [done|]. simpl length. lia. Qed.

Lemma count_star_perm rows rows' :
  rows ≡ₚ rows' → Sql.count_star rows = Sql.count_star rows'.
Proof. unfold Sql.count_star. by intros ->. Qed.

Lemma count_distinct_perm (col : A → option Z) rows rows' :
  rows ≡ₚ rows' → Sql.count_distinct col rows = Sql.count_distinct col rows'.
Proof. unfold Sql.count_distinct. by intros ->. Qed.

Lemma count_distinct_nonneg (col : A → option Z) rows :
  0 ≤ Sql.count_distinct col rows.
Proof. unfold Sql.count_distinct. lia. Qed.

Lemma remove_dups_cons_in (x : Z) l : x ∈ l → remove_dups (x :: l) = remove_dups l.
Proof. intros Hin. simpl. by destruct (decide_rel elem_of x l). Qed.

Lemma remove_dups_cons_notin (x : Z) l :
  x ∉ l → remove_dups (x :: l) = x :: remove_dups l.
Proof. intros Hin. simpl. by destruct (decide_rel elem_of x l). Qed.

Lemma remove_dups_shorter (l : list Z) : (length (remove_dups l) ≤ length l)%nat.
Proof.
  induction l as [|x l IH]; simpl; [done|].
  destruct (decide_rel elem_of x l); simpl length; lia.
Qed.

Lemma omap_shorter (col : A → option Z) rows :
  (length (omap col rows) ≤ length rows)%nat.
Proof.
  induction rows as [|r rows IH]; csimpl; [done|].
  destruct (col r); csimpl; lia.
Qed.

(** The distinct values of a column are no more than the rows. *)
Lemma count_distinct_le_count_star (col : A → option Z) rows :
  Sql.count_distinct col rows ≤ Sql.count_star rows.
Proof.
  unfold Sql.count_distinct, Sql.count_star.
  set (vs := omap col rows).
  assert (list_to_set vs =@{gset Z} list_to_set (remove_dups vs)) as ->.
  { apply set_eq. intros v. by rewrite !elem_of_list_to_set, elem_of_remove_dups. }
  rewrite size_list_to_set by apply NoDup_remove_dups.
  apply inj_le. etrans; [apply remove_dups_shorter|]. apply omap_shorter.
Qed.

Lemma count_distinct_all_null (col : A → option Z) rows :
  Forall (λ r, col r = None) rows → Sql.count_distinct col rows = 0.
Proof.
  intros Hall. unfold Sql.count_distinct.
  assert (omap col rows = []) as ->; [|by rewrite list_to_set_nil, size_empty].
  induction Hall as [|r rows Hr _ IH]; [done|]. simpl. by rewrite Hr.
Qed.

Global Instance key_le_total key : Total (Sql.key_le key).
Proof. intros a b. unfold Sql.key_le. lia. Qed.

Global Instance key_le_trans key : Transitive (Sql.key_le key).
Proof. intros a b c. unfold Sql.key_le. lia. Qed.

Lemma order_by_perm key rows : Sql.order_by key rows ≡ₚ rows.
Proof. apply merge_sort_Permutation. Qed.

Lemma order_by_sorted key rows :
  StronglySorted Z.le (key <$> Sql.order_by key rows).
Proof.
  apply (StronglySorted_fmap _ (Sql.key_le key)); [done|].
  apply StronglySorted_merge_sort; apply _.
Qed.

(** With pairwise different keys the order is strict. *)
Lemma sorted_NoDup_strict (l : list Z) :
  StronglySorted Z.le l → NoDup l → StronglySorted Z.lt l.
Proof.
  induction 1 as [|x l Hl IH Hx]; intros Hnd; [constructor|].
  apply NoDup_cons in Hnd as [Hnotin Hnd]. constructor; [by apply IH|].
  rewrite Forall_forall in Hx |- *. intros y Hy.
  assert (x ≠ y) by (intros ->; done). specialize (Hx y Hy). lia.
Qed.
End SqlFacts.

(** ** The archive query *)

Section ArchiveFacts.
Implicit Types (now d : Z) (tz : zone) (r : block) (rows blocks : list block).
Implicit Types (rec : DailyProductionRecord).

(** The [WHERE] clause in integers: the row's milliseconds, taken in
    microseconds, come after the instant thirty days before [now()]. *)
Lemma in_window_iff now tz r :
  in_window now tz r ↔ window_start_us now tz < 1000 * timestamp r.
Proof.
  unfold in_window, window_start, extract_epoch, Qlt, USECS_PER_SEC.
  simpl. lia.
Qed.

(** In a zone that keeps one offset, thirty days are 30 × 86400 s. *)
Lemma window_start_fixed now off :
  window_start_us now (fixed_offset off) = now - 30 * 86400 * 1000000.
Proof.
  unfold window_start_us, minus_days, wall_clock, instant_of, fixed_offset,
    USECS_PER_SEC, SECS_PER_DAY.
  cbn [utc_offset local_offset].
  pose proof (Z.div_mod now 1000000 ltac:(lia)). lia.
Qed.

Lemma date_of_eq tz r :
  date_of tz r =
  (timestamp r `quot` 1000 + utc_offset tz (timestamp r `quot` 1000)) `div` 86400.
Proof.
  unfold date_of, DATE, wall_clock, to_timestamp, USECS_PER_SEC, SECS_PER_DAY.
  cbn [fst]. by rewrite Z.div_mul.
Qed.

Lemma elem_of_aggregate tz rows rec :
  rec ∈ aggregate tz rows ↔
  ∃ d, d ∈ date_of tz <$> rows ∧
       rec = select (d, filter (λ r, date_of tz r = d) rows).
Proof.
  unfold aggregate. rewrite order_by_perm, list_elem_of_fmap. split.
  - intros ([d g] & -> & Hg). apply elem_of_group_by in Hg as [Hd ->]. eauto.
  - intros (d & Hd & ->). eexists; split; [done|]. by apply elem_of_group_by.
Qed.

Lemma aggregate_dates tz rows :
  date <$> aggregate tz rows ≡ₚ remove_dups (date_of tz <$> rows).
Proof.
  unfold aggregate. rewrite order_by_perm, <-list_fmap_compose.
  rewrite <-group_by_keys.
  by rewrite (list_fmap_ext (date ∘ select) fst).
Qed.

Lemma aggregate_NoDup tz rows : NoDup (date <$> aggregate tz rows).
Proof. rewrite aggregate_dates. apply NoDup_remove_dups. Qed.

Lemma aggregate_strict tz rows : StronglySorted Z.lt (date <$> aggregate tz rows).
Proof.
  apply sorted_NoDup_strict; [apply order_by_sorted|apply aggregate_NoDup].
Qed.

Lemma elem_of_query now tz blocks rec :
  rec ∈ query now tz blocks ↔
  ∃ d, group_of now tz blocks d ≠ [] ∧ rec = select (d, group_of now tz blocks d).
Proof.
  unfold query, group_of. rewrite elem_of_aggregate. split.
  - intros (d & Hd & ->). exists d; split; [|done].
    apply list_elem_of_fmap in Hd as (r & -> & Hr). intros Hnil.
    assert (r ∈ filter (λ r', date_of tz r' = date_of tz r)
                       (Sql.where_ (in_window now tz) blocks)) as Hin
      by by apply list_elem_of_filter.
    rewrite Hnil in Hin. by apply not_elem_of_nil in Hin.
  - intros (d & Hne & ->). exists d; split; [|done].
    destruct (filter _ _) as [|r g] eqn:Hg; [done|].
    assert (r ∈ r :: g) as Hin by left. rewrite <-Hg in Hin.
    apply list_elem_of_filter in Hin as [<- Hin].
    apply list_elem_of_fmap. eauto.
Qed.

Lemma elem_of_group_of now tz blocks d r :
  r ∈ group_of now tz blocks d ↔ r ∈ blocks ∧ in_window now tz r ∧ date_of tz r = d.
Proof.
  unfold group_of, Sql.where_. rewrite !list_elem_of_filter. tauto.
Qed.
End ArchiveFacts.

Section ArchiveRecords.
Implicit Types (now d : Z) (tz : zone) (r : block) (rows blocks : list block).
Implicit Types (rec : DailyProductionRecord).

(** Every record of the answer is the [SELECT] list on the group of its
    date, and that group has a row. *)
Lemma query_records now tz blocks :
  Forall (λ rec, group_of now tz blocks (date rec) ≠ [] ∧
                 rec = select (date rec, group_of now tz blocks (date rec)))
         (query now tz blocks).
Proof.
  apply Forall_forall. intros rec (d & Hne & ->)%elem_of_query. by simpl.
Qed.

Lemma query_dates now tz blocks d :
  d ∈ date <$> query now tz blocks ↔
  ∃ r, r ∈ blocks ∧ in_window now tz r ∧ date_of tz r = d.
Proof.
  rewrite list_elem_of_fmap. split.
  - intros (rec & Hd & (d' & Hne & ->)%elem_of_query). simpl in Hd. subst d'.
    destruct (group_of now tz blocks d) as [|r g] eqn:Hg; [done|].
    exists r. apply elem_of_group_of. rewrite Hg. left.
  - intros (r & Hr). apply elem_of_group_of in Hr.
    exists (select (d, group_of now tz blocks d)). split; [done|].
    apply elem_of_query. exists d. split; [|done].
    intros Hnil. rewrite Hnil in Hr. by apply not_elem_of_nil in Hr.
Qed.

Lemma aggregated_iff now tz blocks r :
  aggregated now tz blocks r ↔ r ∈ blocks ∧ in_window now tz r.
Proof.
  unfold aggregated. split.
  - intros (rec & _ & _ & Hr). apply elem_of_group_of in Hr. tauto.
  - intros [Hr Hw].
    assert (date_of tz r ∈ date <$> query now tz blocks) as Hd
      by (apply query_dates; eauto).
    apply list_elem_of_fmap in Hd as (rec & Hd & Hrec).
    exists rec. split_and!; [done..|]. apply elem_of_group_of. by rewrite <-Hd.
Qed.
End ArchiveRecords.

Section ArchiveShapes.
Implicit Types (now d : Z) (tz : zone) (r : block) (rows blocks : list block).

(** When the whole window falls on one day the answer is one record. *)
Lemma query_single_day now tz blocks d :
  group_of now tz blocks d ≠ [] →
  (∀ r, r ∈ blocks → in_window now tz r → date_of tz r = d) →
  query now tz blocks = [select (d, group_of now tz blocks d)].
Proof.
  intros Hne Hday. set (x := select (d, group_of now tz blocks d)).
  assert (∀ rec, rec ∈ query now tz blocks → rec = x) as Hall.
  { intros rec (d' & Hne' & ->)%elem_of_query.
    destruct (group_of now tz blocks d') as [|r g] eqn:Hg; [done|].
    assert (r ∈ group_of now tz blocks d') as Hr by (rewrite Hg; left).
    apply elem_of_group_of in Hr as (Hr & Hw & Hd).
    rewrite (Hday r Hr Hw) in Hd. subst d'. unfold x. by rewrite Hg. }
  assert (x ∈ query now tz blocks) as Hx by (apply elem_of_query; eauto).
  pose proof (NoDup_fmap_1 date _ (aggregate_NoDup tz _) : NoDup (query now tz blocks)) as Hnd.
  destruct (query now tz blocks) as [|a [|b l]].
  - by apply not_elem_of_nil in Hx.
  - f_equal. apply Hall. left.
  - assert (a = x) as -> by (apply Hall; left).
    assert (b = x) as -> by (apply Hall; right; left).
    apply NoDup_cons in Hnd as [Hnotin _]. exfalso. apply Hnotin. left.
Qed.

(** A row that passes the [WHERE] clause joins the group of its day. *)
Lemma group_of_cons now tz blocks r :
  in_window now tz r →
  group_of now tz (r :: blocks) (date_of tz r) = r :: group_of now tz blocks (date_of tz r).
Proof.
  intros Hw. unfold group_of, Sql.where_.
  rewrite (filter_cons_True (in_window now tz)) by done.
  by rewrite filter_cons_True.
Qed.

Lemma group_of_all_null now tz blocks d :
  (∀ r, r ∈ blocks → in_window now tz r → date_of tz r = d → creator_id r = None) →
  Forall (λ r, creator_id r = None) (group_of now tz blocks d).
Proof.
  intros Hnull. apply Forall_forall. intros r Hr.
  apply elem_of_group_of in Hr as (Hr & Hw & Hd). by apply Hnull.
Qed.
End ArchiveShapes.

Section ArchiveBag.
Implicit Types (tz : zone) (rows : list block).

Global Instance date_lt_antisym : AntiSymm (=) date_lt.
Proof. intros a b. unfold date_lt. lia. Qed.

Lemma sorted_by_date (l : list DailyProductionRecord) :
  StronglySorted Z.lt (date <$> l) → StronglySorted date_lt l.
Proof.
  induction l as [|a l IH]; [constructor|].
  rewrite fmap_cons. intros [Ha Hl]%StronglySorted_cons.
  constructor; [by apply IH|]. by rewrite Forall_fmap in Ha.
Qed.

(** A table is a bag of rows: the answer does not depend on the order in
    which the rows are listed. *)
Lemma aggregate_perm tz rows rows' :
  rows ≡ₚ rows' → aggregate tz rows = aggregate tz rows'.
Proof.
  intros Hp. apply (StronglySorted_unique date_lt).
  - apply sorted_by_date, aggregate_strict.
  - apply sorted_by_date, aggregate_strict.
  - apply NoDup_Permutation.
    + apply (NoDup_fmap_1 date), aggregate_NoDup.
    + apply (NoDup_fmap_1 date), aggregate_NoDup.
    + intros rec. rewrite !elem_of_aggregate.
      assert (∀ d, select (d, filter (λ r, date_of tz r = d) rows)
                 = select (d, filter (λ r, date_of tz r = d) rows')) as Hsel.
      { intros d. unfold select. cbn [fst snd].
        pose proof (group_by_perm (date_of tz) rows rows' d Hp) as Hg.
        f_equal; [by apply count_star_perm|by apply count_distinct_perm]. }
      assert (∀ d, d ∈ date_of tz <$> rows ↔ d ∈ date_of tz <$> rows') as Hdates
        by (intros d; by rewrite Hp).
      split; intros (d & Hd & ->); exists d; split;
        [by apply Hdates|by rewrite Hsel|by apply Hdates|by rewrite Hsel].
Qed.
End ArchiveBag.

(** ** The claims about the answer of the query *)

(** C1, as the code has it: a row of [blocks] is aggregated if and only if its
    millisecond timestamp comes after [now() − 30 days], and every record
    counts exactly the rows of its date that do.  The thirty days are taken
    off the calendar of the session's zone: 30 × 86400 s where the zone keeps
    its offset, an hour more or less across a change of offset.  The [WHERE]
    clause has this lower bound and no upper one, so a row later than [now()]
    is aggregated too. *)
Theorem aggregated_iff_after_window_start now tz blocks :
  (∀ r, r ∈ blocks →
     (aggregated now tz blocks r ↔ window_start_us now tz < 1000 * timestamp r)) ∧
  Forall (λ rec,
    blocks_per_day rec =
      Z.of_nat (length (filter (λ r, date_of tz r = date rec ∧
                                     window_start_us now tz < 1000 * timestamp r)
                               blocks)))
    (query now tz blocks) ∧
  window_start_us now tz =
    (let s := now `div` 1000000 in
     let l := s + utc_offset tz s - 30 * 86400 in
     (l - local_offset tz l) * 1000000 + now `mod` 1000000) ∧
  (∀ off, window_start_us now (fixed_offset off) = now - 30 * 86400 * 1000000).
Proof.
  split_and!.
  - intros r Hr. rewrite aggregated_iff, in_window_iff. tauto.
  - eapply Forall_impl; [apply query_records|]. intros [d b u] [_ Hrec].
    unfold select in Hrec. simpl in *. injection Hrec as -> _.
    unfold Sql.count_star, group_of, Sql.where_. rewrite list_filter_filter.
    do 2 f_equal. apply list_filter_iff. intros r. by rewrite in_window_iff.
  - reflexivity.
  - apply window_start_fixed.
Qed.

Lemma aggregated_iff_after_window_start_witness :
  let now := 40 * 86400000000 in
  let old := Block (Some 1) (10 * 86400000) in
  let new := Block (Some 2) (10 * 86400000 + 1) in
  let now' := 1793793600 * 1000000 in
  let early := Block (Some 3) ((1793793600 - 30 * 86400 - 1800) * 1000) in
  (¬ aggregated now UTC [old; new] old ∧
   aggregated now UTC [old; new] new ∧
   blocks_per_day <$> query now UTC [old; new] = [1]) ∧
  (aggregated now' new_york_autumn_2026 [early] early ∧
   ¬ aggregated now' UTC [early] early ∧
   query now' new_york_autumn_2026 [early] = [Daily 20731 1 1]).
Proof.
  intros now old new now' early.
  destruct (aggregated_iff_after_window_start now UTC [old; new]) as (Hiff & _).
  destruct (aggregated_iff_after_window_start now' new_york_autumn_2026 [early])
    as (Hny & _).
  destruct (aggregated_iff_after_window_start now' UTC [early]) as (Hutc & _).
  split; split_and!.
  - rewrite (Hiff old) by (by left). by vm_compute.
  - rewrite (Hiff new) by (right; by left). by vm_compute.
  - by vm_compute.
  - rewrite (Hny early) by (by left). by vm_compute.
  - rewrite (Hutc early) by (by left). by vm_compute.
  - by vm_compute.
Defined.

(** C1 as it is written fails: at [now()] = day 40, 00:00, a row stamped a day
    later is outside [[now − 30 days, now]], yet it is aggregated and the
    answer has its record. *)
Lemma row_after_now_is_aggregated :
  let now := 40 * 86400000000 in
  let r := Block (Some 1) (41 * 86400000) in
  ¬ within_trailing_window now UTC r ∧
  aggregated now UTC [r] r ∧
  query now UTC [r] = [Daily 41 1 1].
Proof.
  intros now r. split_and!.
  - unfold within_trailing_window, now, r. cbn [timestamp]. lia.
  - apply aggregated_iff. split; [by left|].
    apply in_window_iff. by vm_compute.
  - vm_compute. reflexivity.
Qed.

(** C2: the answer is sorted strictly ascending by date, so no date occurs
    twice. *)
Theorem query_strictly_ascending now tz blocks :
  StronglySorted Z.lt (date <$> query now tz blocks) ∧
  NoDup (date <$> query now tz blocks).
Proof. split; [apply aggregate_strict|apply aggregate_NoDup]. Qed.

(** C3: three rows of the window on day [D] with producers [A], [A], [B]
    and one on day [D + 1] with producer [C], in whatever order the store
    lists them and whatever lies outside the window: the answer is the two
    records [(D, 3, 2)] and [(D + 1, 1, 1)], in that order. *)
Theorem query_three_and_one now tz blocks D A B C t1 t2 t3 t4 :
  A ≠ B →
  Sql.where_ (in_window now tz) blocks ≡ₚ
    [Block (Some A) t1; Block (Some A) t2; Block (Some B) t3; Block (Some C) t4] →
  date_of tz (Block (Some A) t1) = D →
  date_of tz (Block (Some A) t2) = D →
  date_of tz (Block (Some B) t3) = D →
  date_of tz (Block (Some C) t4) = D + 1 →
  query now tz blocks = [Daily D 3 2; Daily (D + 1) 1 1].
Proof.
  intros HAB Hp H1 H2 H3 H4. unfold query. rewrite (aggregate_perm _ _ _ Hp).
  unfold aggregate, Sql.group_by.
  rewrite !fmap_cons, fmap_nil, H1, H2, H3, H4.
  assert (remove_dups [D; D; D; D + 1] = [D; D + 1]) as ->.
  { rewrite !remove_dups_cons_in by (set_unfold; lia).
    rewrite remove_dups_cons_notin by (set_unfold; lia).
    by rewrite remove_dups_cons_notin by (set_unfold; lia). }
  rewrite !fmap_cons, fmap_nil.
  rewrite !filter_cons, !filter_nil, H1, H2, H3, H4.
  rewrite !decide_True by done. rewrite !decide_False by lia.
  rewrite decide_True by done.
  assert (Sql.count_distinct creator_id
            [Block (Some A) t1; Block (Some A) t2; Block (Some B) t3] = 2) as HD.
  { unfold Sql.count_distinct.
    change (omap creator_id _) with [A; A; B].
    assert (list_to_set [A; A; B] =@{gset Z} list_to_set [A; B]) as ->
      by (apply set_eq; intros x; set_unfold; tauto).
    by rewrite size_list_to_set by (repeat constructor; set_unfold; intuition congruence). }
  assert (Sql.count_distinct creator_id [Block (Some C) t4] = 1) as HD1.
  { unfold Sql.count_distinct. change (omap creator_id _) with [C].
    by rewrite size_list_to_set by (repeat constructor; set_unfold; intuition congruence). }
  unfold select. cbn [fst snd]. rewrite HD, HD1.
  unfold Sql.count_star. cbn [length fmap list_fmap].
  unfold Sql.order_by, merge_sort. cbn [merge_sort_aux merge_list_to_stack merge_stack].
  rewrite list_merge_cons, decide_True by (unfold Sql.key_le; cbn [date]; lia).
  reflexivity.
Qed.

Lemma query_three_and_one_witness :
  let now := 40 * 86400000000 in
  let blocks :=
    [Block (Some 9) (21 * 86400000 + 1); Block (Some 7) (20 * 86400000 + 5);
     Block (Some 3) (2 * 86400000); Block (Some 8) (20 * 86400000);
     Block (Some 7) (20 * 86400000 + 999)] in
  query now UTC blocks = [Daily 20 3 2; Daily (20 + 1) 1 1].
Proof.
  intros now blocks.
  apply (query_three_and_one now UTC blocks 20 7 8 9
           (20 * 86400000 + 5) (20 * 86400000 + 999) (20 * 86400000)
           (21 * 86400000 + 1)).
  - discriminate.
  - replace (Sql.where_ (in_window now UTC) blocks)
      with [Block (Some 9) (21 * 86400000 + 1); Block (Some 7) (20 * 86400000 + 5);
            Block (Some 8) (20 * 86400000); Block (Some 7) (20 * 86400000 + 999)]
      by (vm_compute; reflexivity).
    apply NoDup_Permutation.
    + repeat constructor; set_unfold; intuition discriminate.
    + repeat constructor; set_unfold; intuition discriminate.
    + intros r. set_unfold. tauto.
  - vm_compute; reflexivity.
  - vm_compute; reflexivity.
  - vm_compute; reflexivity.
  - vm_compute; reflexivity.
Defined.

(** C4: in every record, [unique_producers] (the distinct producer
    identifiers of the date's group) is at most [blocks_per_day] (the rows of
    that group). *)
Theorem unique_producers_le_blocks_per_day now tz blocks :
  Forall (λ rec,
    let g := group_of now tz blocks (date rec) in
    blocks_per_day rec = Z.of_nat (length g) ∧
    unique_producers rec = Z.of_nat (size (list_to_set (omap creator_id g) : gset Z)) ∧
    0 ≤ unique_producers rec ≤ blocks_per_day rec)
  (query now tz blocks).
Proof.
  eapply Forall_impl; [apply query_records|]. intros [d b u] [_ Hrec].
  unfold select in Hrec. simpl in *. injection Hrec as -> ->.
  split_and!; [done..| |].
  - apply count_distinct_nonneg.
  - apply count_distinct_le_count_star.
Qed.

(** C5: a date has a record exactly when some row of the window falls on it,
    and every record counts at least one block. *)
Theorem no_record_without_rows now tz blocks :
  (∀ d, d ∈ date <$> query now tz blocks ↔
        ∃ r, r ∈ blocks ∧ in_window now tz r ∧ date_of tz r = d) ∧
  Forall (λ rec, 1 ≤ blocks_per_day rec) (query now tz blocks).
Proof.
  split; [apply query_dates|].
  eapply Forall_impl; [apply query_records|]. intros rec [Hne ->]. simpl.
  by apply count_star_pos.
Qed.

(** C6: the date of a row is the day of [timestamp / 1000] seconds, the
    quotient of the integer division; what is below a second is dropped, never
    rounded up.  999 ms is on the day of 0 ms (and both rows land in one
    record), and the last millisecond of a day stays on that day. *)
Theorem date_of_truncates_to_seconds tz off c ts :
  date_of tz (Block c ts) =
    (ts `quot` 1000 + utc_offset tz (ts `quot` 1000)) `div` 86400 ∧
  date_of (fixed_offset off) (Block c ts) = (ts `quot` 1000 + off) `div` 86400 ∧
  date_of tz (Block c ts) = date_of tz (Block c (ts - ts `rem` 1000)) ∧
  date_of tz (Block c 999) = date_of tz (Block c 0) ∧
  blocks_per_day <$> query 0 (fixed_offset off) [Block c 0; Block c 999] = [2] ∧
  date_of UTC (Block c 86399999) = 0.
Proof.
  assert (ts - ts `rem` 1000 = ts `quot` 1000 * 1000) as Hsec
    by (pose proof (Z.quot_rem' ts 1000); lia).
  split_and!.
  - apply date_of_eq.
  - apply date_of_eq.
  - rewrite !date_of_eq. cbn [timestamp]. by rewrite Hsec, Z.quot_mul.
  - by rewrite !date_of_eq.
  - assert (∀ t, t = 0 ∨ t = 999 → in_window 0 (fixed_offset off) (Block c t)) as Hw.
    { intros t Ht. apply in_window_iff. rewrite window_start_fixed.
      cbn [timestamp]. lia. }
    rewrite (query_single_day 0 _ _ (date_of (fixed_offset off) (Block c 0))).
    + rewrite group_of_cons by (apply Hw; lia).
      replace (date_of (fixed_offset off) (Block c 0))
        with (date_of (fixed_offset off) (Block c 999)) by by rewrite !date_of_eq.
      by rewrite group_of_cons by (apply Hw; lia).
    + by rewrite group_of_cons by (apply Hw; lia).
    + intros r Hr _. apply elem_of_cons in Hr as [->|Hr]; [done|].
      apply elem_of_cons in Hr as [->|Hr]; [by rewrite !date_of_eq|].
      by apply not_elem_of_nil in Hr.
  - by rewrite date_of_eq.
Qed.

(** C10: a row without producer identifier counts as a block and not as a
    producer.  Added to any store, such a row raises [blocks_per_day] of its
    day by one and leaves [unique_producers] as it was; and a day on which
    every row of the window lacks the identifier has a record with
    [blocks_per_day ≥ 1] and [unique_producers = 0]. *)
Theorem null_creator_counts_as_block_only now tz blocks :
  (∀ n, creator_id n = None → in_window now tz n →
     let g := group_of now tz blocks (date_of tz n) in
     ∃ rec, rec ∈ query now tz (n :: blocks) ∧ date rec = date_of tz n ∧
            blocks_per_day rec = Sql.count_star g + 1 ∧
            unique_producers rec = Sql.count_distinct creator_id g) ∧
  (∀ d, (∃ r, r ∈ blocks ∧ in_window now tz r ∧ date_of tz r = d) →
        (∀ r, r ∈ blocks → in_window now tz r → date_of tz r = d → creator_id r = None) →
     ∃ rec, rec ∈ query now tz blocks ∧ date rec = d ∧
            blocks_per_day rec = Z.of_nat (length (group_of now tz blocks d)) ∧
            1 ≤ blocks_per_day rec ∧ unique_producers rec = 0).
Proof.
  split.
  - intros n Hnull Hw g.
    pose proof (group_of_cons now tz blocks n Hw) as Hg. fold g in Hg.
    exists (select (date_of tz n, n :: g)). split_and!.
    + apply elem_of_query. exists (date_of tz n). by rewrite Hg.
    + done.
    + unfold select, Sql.count_star. cbn [blocks_per_day snd length]. lia.
    + unfold select, Sql.count_distinct. cbn [unique_producers snd].
      csimpl. by rewrite Hnull.
  - intros d (r & Hr) Hnull. apply elem_of_group_of in Hr.
    assert (group_of now tz blocks d ≠ []) as Hne
      by (intros Hnil; rewrite Hnil in Hr; by apply not_elem_of_nil in Hr).
    exists (select (d, group_of now tz blocks d)).
    rewrite elem_of_query. split_and!; [by eauto|done|done|..].
    + by apply count_star_pos.
    + by apply count_distinct_all_null, group_of_all_null.
Qed.

Lemma null_creator_counts_as_block_only_witness :
  let now := 40 * 86400000000 in
  let blocks := [Block None (20 * 86400000); Block None (20 * 86400000 + 7)] in
  (∃ rec, rec ∈ query now UTC (Block None (20 * 86400000 + 9) :: blocks) ∧
          date rec = 20 ∧ blocks_per_day rec = 3 ∧ unique_producers rec = 0) ∧
  (∃ rec, rec ∈ query now UTC blocks ∧ date rec = 20 ∧
          blocks_per_day rec = 2 ∧ 1 ≤ blocks_per_day rec ∧ unique_producers rec = 0).
Proof.
  intros now blocks.
  destruct (null_creator_counts_as_block_only now UTC blocks) as [Hadd Hday].
  split.
  - apply (Hadd (Block None (20 * 86400000 + 9))); [reflexivity|].
    apply in_window_iff. vm_compute. reflexivity.
  - apply (Hday 20).
    + exists (Block None (20 * 86400000)). split; [by left|].
      split; [apply in_window_iff; vm_compute|vm_compute]; reflexivity.
    + intros r Hr _ _. unfold blocks in Hr.
      apply elem_of_cons in Hr as [->|Hr]; [reflexivity|].
      apply elem_of_cons in Hr as [->|Hr]; [reflexivity|].
      by apply not_elem_of_nil in Hr.
Defined.

Import Script.

(** ** The script *)

Section ScriptFacts.
Implicit Types (w : world).

(** The ways through the script: it stops at the first call that raises, or
    runs to the end; the table reaches standard output inside [print] when
    written through, at exit when block-buffered, and never when the device
    refuses it. *)
Lemma run_paths w :
  run w =
    if bool_decide (store w ≠ Accepted) then
      failed [Call Connect] Connect (table w)
    else if query_fails w then
      failed [Call Connect; Call ReadSqlQuery] ReadSqlQuery (table w)
    else
      let before := [Call Connect; Call ReadSqlQuery; Call Print] in
      let status (e : option exception) := match e with Some _ => 1 | None => 0 end in
      let through :=
        {| trace := before ++ Stdout (df_of w) :: (after_print w).1;
           table_after := table w;
           stderr := (after_print w).2; exit_status := status (after_print w).2 |} in
      match stdout_mode w with
      | BlockBuffered =>
          if stdout_fails w then
            {| trace := before ++ (after_print w).1; table_after := table w;
               stderr := (after_print w).2; exit_status := 120 |}
          else
            {| trace := before ++ (after_print w).1 ++ [Stdout (df_of w)];
               table_after := table w;
               stderr := (after_print w).2; exit_status := status (after_print w).2 |}
      | LineBuffered =>
          if stdout_fails w then
            {| trace := before; table_after := table w;
               stderr := Some (Raised Print); exit_status := 120 |}
          else through
      | Unbuffered =>
          if stdout_fails w then failed before Print (table w) else through
      end.
Proof.
  destruct w as [now tz blocks st qf bf sf lf tf wf]. unfold run, df_of, failed, after_print.
  cbn [clock time_zone table store query_fails stdout_mode stdout_fails plot_fails
       title_fails show_fails].
  destruct st, qf, bf, sf, lf, tf, wf; reflexivity.
Qed.
End ScriptFacts.

(** Splits a goal about [run w] into the paths of [run_paths]. *)
Ltac run_cases w :=
  rewrite ?(run_paths w) in *; unfold after_print in *;
  repeat match goal with
  | |- context [bool_decide (store w ≠ Accepted)] =>
      destruct (bool_decide_reflect (store w ≠ Accepted))
  | H : context [bool_decide (store w ≠ Accepted)] |- _ =>
      destruct (bool_decide_reflect (store w ≠ Accepted))
  | |- context [match stdout_mode w with Unbuffered => _ | _ => _ end] =>
      destruct (stdout_mode w) eqn:?
  | H : context [match stdout_mode w with Unbuffered => _ | _ => _ end] |- _ =>
      destruct (stdout_mode w) eqn:?
  | |- context [if ?f w then _ else _] => destruct (f w) eqn:?
  | H : context [if ?f w then _ else _] |- _ => destruct (f w) eqn:?
  end;
  unfold failed, stdout in *; cbn [trace table_after stderr exit_status fst snd app] in *.

Example run_all_fine :
  run (World (40 * 86400 * 1000000) UTC [Block (Some 7) (20 * 86400000 + 5)]
             Accepted false LineBuffered false false false false)
  = Outcome [Call Connect; Call ReadSqlQuery; Call Print; Stdout [Daily 20 1 1];
             Call Plot; Call Title; Call Show]
            [Block (Some 7) (20 * 86400000 + 5)] None 0.
Proof. vm_compute. reflexivity. Qed.

Example run_to_a_full_device :
  run (World (40 * 86400 * 1000000) UTC [Block (Some 7) (20 * 86400000 + 5)]
             Accepted false BlockBuffered true false false false)
  = Outcome [Call Connect; Call ReadSqlQuery; Call Print; Call Plot; Call Title; Call Show]
            [Block (Some 7) (20 * 86400000 + 5)] None 120.
Proof. vm_compute. reflexivity. Qed.

(** ** The claims about a run *)

(** C7: when the store is unreachable or rejects the credentials,
    [psycopg2.connect] raises and nobody catches it: the failure is of the
    connection kind, the exit status is not zero, and nothing has reached
    standard output, because the connection is the first thing the script
    does. *)
Theorem connection_failure_prints_nothing w :
  store w ≠ Accepted →
  trace (run w) = [Call Connect] ∧
  kind_of <$> stderr (run w) = Some ConnectionError ∧
  exit_status (run w) ≠ 0 ∧
  stdout (run w) = [].
Proof. intros Hst. run_cases w; done. Qed.

Lemma connection_failure_prints_nothing_witness :
  let w1 := World 0 UTC [Block (Some 1) 5] Unreachable false BlockBuffered false false false false in
  let w2 := World 0 UTC [Block (Some 1) 5] AuthenticationRejected false BlockBuffered false false false false in
  (kind_of <$> stderr (run w1) = Some ConnectionError ∧ exit_status (run w1) ≠ 0 ∧
   stdout (run w1) = []) ∧
  (kind_of <$> stderr (run w2) = Some ConnectionError ∧ exit_status (run w2) ≠ 0 ∧
   stdout (run w2) = []).
Proof.
  intros w1 w2. split.
  - apply (connection_failure_prints_nothing w1). discriminate.
  - apply (connection_failure_prints_nothing w2). discriminate.
Defined.




(** C9, as the code has it: every run calls [psycopg2.connect] exactly once
    and first of all, sends the store nothing but the [SELECT] (the table
    stays as it was), and on no path, normal or failing, closes the
    connection: it is left open until the process ends. *)
Theorem connects_once_never_closes w :
  (∃ rest, trace (run w) = Call Connect :: rest ∧ Call Connect ∉ rest) ∧
  table_after (run w) = table w ∧
  Call Close ∉ trace (run w).
Proof.
  run_cases w; (split_and!; [eexists; split; [reflexivity|]|done|]);
    set_unfold; intuition discriminate.
Qed.

(** C9 as it is written fails: in a run where every call returns, the
    connection is opened and the script ends without closing it; so it does
    when [df.plot] raises. *)
Lemma connection_left_open :
  let w := World (40 * 86400000000) UTC [Block (Some 7) (20 * 86400000 + 5)]
                 Accepted false BlockBuffered false false false false in
  let w' := World (40 * 86400000000) UTC [Block (Some 7) (20 * 86400000 + 5)]
                  Accepted false BlockBuffered false true false false in
  (store w = Accepted ∧ exit_status (run w) = 0 ∧ Call Close ∉ trace (run w)) ∧
  (store w' = Accepted ∧ exit_status (run w') = 1 ∧ Call Close ∉ trace (run w')).
Proof.
  intros w w'. split; (split_and!; [done|by vm_compute|]).
  - vm_compute. set_unfold. intuition discriminate.
  - vm_compute. set_unfold. intuition discriminate.
Qed.


(** * Further properties *)

(** ** Of the answer *)

Section AnswerFacts.
Implicit Types (now d : Z) (tz : zone) (r : block) (rows blocks : list block).

Lemma where_app now tz blocks extra :
  Sql.where_ (in_window now tz) (blocks ++ extra) =
  Sql.where_ (in_window now tz) blocks ++ Sql.where_ (in_window now tz) extra.
Proof. unfold Sql.where_. apply filter_app. Qed.

Lemma where_none now tz blocks :
  (∀ r, r ∈ blocks → ¬ in_window now tz r) → Sql.where_ (in_window now tz) blocks = [].
Proof.
  intros Hout. unfold Sql.where_. induction blocks as [|r blocks IH]; [done|].
  rewrite filter_cons_False by (apply Hout; left).
  apply IH. intros r' Hr'. apply Hout. by right.
Qed.
End AnswerFacts.

(** X1: [blocks] is a bag of rows; the answer is the same in whatever order
    the store holds or scans them. *)
Theorem query_row_order_irrelevant now tz blocks blocks' :
  blocks ≡ₚ blocks' → query now tz blocks = query now tz blocks'.
Proof.
  intros Hp. unfold query. apply aggregate_perm. unfold Sql.where_. by rewrite Hp.
Qed.

Lemma query_row_order_irrelevant_witness :
  let a := Block (Some 1) (20 * 86400000) in
  let b := Block None (25 * 86400000) in
  let c := Block (Some 2) (20 * 86400000 + 1) in
  query (40 * 86400000000) UTC [a; b; c] = query (40 * 86400000000) UTC [c; a; b].
Proof.
  intros a b c. apply query_row_order_irrelevant.
  change [c; a; b] with ([c] ++ [a; b]). change [a; b; c] with ([a; b] ++ [c]).
  apply Permutation_app_comm.
Defined.

(** X2: the answer is empty exactly when no row of the store passes the
    [WHERE] clause; in particular an empty store gives an empty answer. *)
Theorem query_empty_iff now tz blocks :
  query now tz blocks = [] ↔
  ∀ r, r ∈ blocks → ¬ (window_start_us now tz < 1000 * timestamp r).
Proof.
  split.
  - intros Hnil r Hr Hw.
    assert (date_of tz r ∈ date <$> query now tz blocks) as Hd
      by (apply query_dates; exists r; by rewrite in_window_iff).
    rewrite Hnil in Hd. by apply not_elem_of_nil in Hd.
  - intros Hout. unfold query. rewrite where_none; [done|].
    intros r Hr Hw%in_window_iff. by apply (Hout r).
Qed.

(** X3: rows at or before the start of the window are as good as absent:
    adding any number of them to the store leaves the answer as it was. *)
Theorem rows_before_window_ignored now tz blocks extra :
  (∀ r, r ∈ extra → 1000 * timestamp r ≤ window_start_us now tz) →
  query now tz (blocks ++ extra) = query now tz blocks ∧
  query now tz (extra ++ blocks) = query now tz blocks.
Proof.
  intros Hold.
  assert (Sql.where_ (in_window now tz) extra = []) as Hnone.
  { apply where_none. intros r Hr Hw%in_window_iff. specialize (Hold r Hr). lia. }
  unfold query. by rewrite !where_app, Hnone, app_nil_r.
Qed.

Lemma rows_before_window_ignored_witness :
  let now := 40 * 86400000000 in
  let blocks := [Block (Some 1) (20 * 86400000)] in
  let extra := [Block (Some 5) (10 * 86400000); Block None 0] in
  query now UTC (blocks ++ extra) = query now UTC blocks ∧
  query now UTC (extra ++ blocks) = query now UTC blocks.
Proof.
  intros now blocks extra. apply rows_before_window_ignored.
  intros r Hr. unfold extra in Hr.
  apply elem_of_cons in Hr as [->|Hr]; [by vm_compute|].
  apply elem_of_cons in Hr as [->|Hr]; [by vm_compute|].
  by apply not_elem_of_nil in Hr.
Defined.

Section Counting.
Context {A : Type}.
Implicit Types (key : A → Z) (rows : list A) (ks : list Z).

Lemma total_perm (l l' : list Z) : l ≡ₚ l' → total l = total l'.
Proof.
  unfold total. induction 1 as [|x l l' _ IH|x y l|l l' l'' _ IH1 _ IH2];
    simpl; [done|by rewrite IH|lia|congruence].
Qed.

(** Over pairwise different keys, the sizes of the groups add up to the
    number of rows that have one of the keys. *)
Lemma group_sizes_add_up key rows ks :
  NoDup ks →
  total ((λ k, Sql.count_star (filter (λ r, key r = k) rows)) <$> ks) =
  Sql.count_star (filter (λ r, key r ∈ ks) rows).
Proof.
  unfold Sql.count_star. induction 1 as [|k ks Hk _ IH]; csimpl.
  - replace (filter (λ r, key r ∈ []) rows) with (@nil A); [done|].
    induction rows as [|r rows IHr]; [done|].
    rewrite filter_cons_False; [done|]. apply not_elem_of_nil.
  - rewrite IH. clear IH. induction rows as [|r rows IHr]; [done|].
    rewrite !(filter_cons _ r).
    destruct (decide (key r = k)) as [Heq|Hne];
      destruct (decide (key r ∈ ks)) as [Hin|Hnin];
      destruct (decide (key r ∈ k :: ks)) as [Hin'|Hnin'];
      simpl length; try lia; exfalso;
      repeat match goal with
      | H : _ ∈ _ :: _ |- _ => apply elem_of_cons in H as [?|?]
      | H : _ ∉ _ :: _ |- _ => apply not_elem_of_cons in H as [? ?]
      end; subst; done.
Qed.

Lemma filter_all (P : A → Prop) `{!∀ x, Decision (P x)} rows :
  (∀ r, r ∈ rows → P r) → filter P rows = rows.
Proof.
  induction rows as [|r rows IH]; intros Hall; [done|].
  rewrite filter_cons_True by (apply Hall; left).
  f_equal. apply IH. intros r' Hr'. apply Hall. by right.
Qed.

(** [GROUP BY] puts every row in exactly one group. *)
Lemma group_by_counts_all key rows :
  total (Sql.count_star <$> (Sql.group_by key rows).*2) = Sql.count_star rows.
Proof.
  unfold Sql.group_by. rewrite <-!list_fmap_compose.
  erewrite list_fmap_ext; [rewrite group_sizes_add_up by apply NoDup_remove_dups|done].
  f_equal. apply filter_all. intros r Hr.
  rewrite elem_of_remove_dups, list_elem_of_fmap. eauto.
Qed.
End Counting.

(** X4: every row that passes the [WHERE] clause is counted in exactly one
    record: the [blocks_per_day] of the answer add up to the number of rows of
    the store stamped after the start of the window. *)
Theorem blocks_per_day_add_up now tz blocks :
  total (blocks_per_day <$> query now tz blocks) =
  Z.of_nat (length (filter (λ r, window_start_us now tz < 1000 * timestamp r) blocks)).
Proof.
  unfold query, aggregate.
  rewrite (total_perm _ (blocks_per_day <$> (select <$>
             Sql.group_by (date_of tz) (Sql.where_ (in_window now tz) blocks))))
    by (by rewrite order_by_perm).
  rewrite <-list_fmap_compose.
  rewrite (list_fmap_ext _ (Sql.count_star ∘ snd)) by done.
  rewrite list_fmap_compose, group_by_counts_all.
  unfold Sql.count_star, Sql.where_. do 2 f_equal.
  apply list_filter_iff. intros r. apply in_window_iff.
Qed.

Section Insertion.
Implicit Types (now d : Z) (tz : zone) (r n : block) (rows blocks : list block).

Lemma group_of_cons_other now tz blocks n d :
  d ≠ date_of tz n → group_of now tz (n :: blocks) d = group_of now tz blocks d.
Proof.
  intros Hd. unfold group_of, Sql.where_. rewrite (filter_cons (in_window now tz)).
  destruct (decide (in_window now tz n)); [|done].
  by rewrite filter_cons_False.
Qed.

(** A producer seen before in the group does not count again; a new one
    counts once. *)
Lemma count_distinct_cons (rows : list block) n :
  Sql.count_distinct creator_id (n :: rows) =
  Sql.count_distinct creator_id rows +
  match creator_id n with
  | Some c => if decide (c ∈ omap creator_id rows) then 0 else 1
  | None => 0
  end.
Proof.
  unfold Sql.count_distinct. csimpl. destruct (creator_id n) as [c|]; [|lia].
  rewrite list_to_set_cons. destruct (decide (c ∈ omap creator_id rows)) as [Hin|Hnin].
  - replace ({[c]} ∪ list_to_set (omap creator_id rows))
      with (list_to_set (omap creator_id rows) : gset Z); [lia|].
    apply set_eq. intros x. set_unfold. intuition (subst; done).
  - rewrite size_union, size_singleton by (set_unfold; intros x -> ?; done). lia.
Qed.
End Insertion.

(** X5: a row added to the store touches only the record of its own day: the
    records of every other date are in the new answer exactly as in the old. *)
Theorem new_row_leaves_other_days now tz blocks n rec :
  date rec ≠ date_of tz n →
  (rec ∈ query now tz (n :: blocks) ↔ rec ∈ query now tz blocks).
Proof.
  intros Hd. rewrite !elem_of_query.
  split; intros (d & Hne & ->); cbn [date select fst] in Hd; exists d.
  - by rewrite group_of_cons_other in Hne |- *.
  - by rewrite group_of_cons_other.
Qed.

Lemma new_row_leaves_other_days_witness :
  let now := 40 * 86400000000 in
  let blocks := [Block (Some 1) (20 * 86400000); Block (Some 2) (21 * 86400000)] in
  Daily 21 1 1 ∈ query now UTC (Block (Some 3) (20 * 86400000 + 4) :: blocks) ↔
  Daily 21 1 1 ∈ query now UTC blocks.
Proof.
  intros now blocks. apply new_row_leaves_other_days. by vm_compute.
Defined.

(** X6: a row stamped after the start of the window, added to the store,
    raises [blocks_per_day] of its day by one (from nothing, when the day had
    no record), and [unique_producers] by one if its producer is not NULL and
    was not yet seen on that day, by nothing otherwise. *)
Theorem new_row_updates_its_day now tz blocks n :
  window_start_us now tz < 1000 * timestamp n →
  let g := group_of now tz blocks (date_of tz n) in
  ∃ rec, rec ∈ query now tz (n :: blocks) ∧ date rec = date_of tz n ∧
         blocks_per_day rec = Z.of_nat (length g) + 1 ∧
         unique_producers rec =
           Sql.count_distinct creator_id g +
           match creator_id n with
           | Some c => if decide (c ∈ omap creator_id g) then 0 else 1
           | None => 0
           end.
Proof.
  intros Hw%in_window_iff g.
  pose proof (group_of_cons now tz blocks n Hw) as Hg. fold g in Hg.
  exists (select (date_of tz n, n :: g)). split_and!.
  - apply elem_of_query. exists (date_of tz n). by rewrite Hg.
  - done.
  - unfold select, Sql.count_star. cbn [blocks_per_day snd length]. lia.
  - unfold select. cbn [unique_producers snd]. apply count_distinct_cons.
Qed.

Lemma new_row_updates_its_day_witness :
  let now := 40 * 86400000000 in
  let blocks := [Block (Some 1) (20 * 86400000); Block (Some 2) (20 * 86400000 + 9)] in
  (∃ rec, rec ∈ query now UTC (Block (Some 2) (20 * 86400000 + 4) :: blocks) ∧
          date rec = 20 ∧ blocks_per_day rec = 3 ∧ unique_producers rec = 2) ∧
  (∃ rec, rec ∈ query now UTC (Block (Some 3) (20 * 86400000 + 4) :: blocks) ∧
          date rec = 20 ∧ blocks_per_day rec = 3 ∧ unique_producers rec = 3).
Proof.
  intros now blocks. split.
  - apply (new_row_updates_its_day now UTC blocks (Block (Some 2) (20 * 86400000 + 4))).
    by vm_compute.
  - apply (new_row_updates_its_day now UTC blocks (Block (Some 3) (20 * 86400000 + 4))).
    by vm_compute.
Defined.

(** X7: a record has [unique_producers = 0] only when every row of its day in
    the window lacks the producer identifier, and always then. *)
Theorem unique_producers_zero_iff now tz blocks :
  Forall (λ rec,
    unique_producers rec = 0 ↔
    ∀ r, r ∈ blocks → window_start_us now tz < 1000 * timestamp r →
         date_of tz r = date rec → creator_id r = None)
  (query now tz blocks).
Proof.
  eapply Forall_impl; [apply query_records|]. intros [d b u] [_ Hrec].
  unfold select in Hrec. simpl in *. injection Hrec as _ ->. split.
  - intros Hzero r Hr Hw%in_window_iff Hd.
    assert (r ∈ group_of now tz blocks d) as Hin by by apply elem_of_group_of.
    destruct (creator_id r) as [c|] eqn:Hc; [exfalso|done].
    unfold Sql.count_distinct in Hzero.
    assert (size (list_to_set (omap creator_id (group_of now tz blocks d)) : gset Z) = 0%nat)
      as Hsize%size_empty_inv by lia.
    assert (c ∈ (list_to_set (omap creator_id (group_of now tz blocks d)) : gset Z)) as Hcin.
    { apply elem_of_list_to_set, list_elem_of_omap. eauto. }
    rewrite Hsize in Hcin. by apply not_elem_of_empty in Hcin.
  - intros Hnull. apply count_distinct_all_null, group_of_all_null.
    intros r Hr Hw%in_window_iff Hd. by apply Hnull.
Qed.

Section Calendar.
Implicit Types (now d : Z) (tz : zone) (r : block) (blocks : list block).

(** A strictly ascending list of integers between [a] and [b] has at most
    [b - a + 1] elements. *)
Lemma strictly_ascending_length (l : list Z) a b :
  StronglySorted Z.lt l → (∀ y, y ∈ l → a ≤ y ≤ b) →
  Z.of_nat (length l) ≤ Z.max 0 (b - a + 1).
Proof.
  intros Hs. revert a. induction Hs as [|x l _ IH Hx]; intros a Hab; [simpl; lia|].
  assert (a ≤ x ≤ b) by (apply Hab; left).
  assert (Z.of_nat (length l) ≤ Z.max 0 (b - (x + 1) + 1)) as Hl.
  { apply IH. intros y Hy. rewrite Forall_forall in Hx. specialize (Hx y Hy).
    assert (a ≤ y ≤ b) by (apply Hab; by right). lia. }
  simpl length. lia.
Qed.

(** The second a row is put in, against the bounds of the window. *)
Lemma second_after (ts s : Z) : 1000000 * s < 1000 * ts → s ≤ ts `quot` 1000.
Proof. intros Hts. Z.to_euclidean_division_equations. lia. Qed.

Lemma second_before (ts now : Z) :
  0 ≤ now → 1000 * ts ≤ now → ts `quot` 1000 ≤ now `div` 1000000.
Proof. intros Hnow Hts. Z.to_euclidean_division_equations. lia. Qed.

(** A fixed offset never steps back, and every reading exists in it. *)
Lemma fixed_offset_never_steps_back off : calendar_never_steps_back (fixed_offset off).
Proof.
  intros s s' Hs. cbn [utc_offset fixed_offset]. unfold SECS_PER_DAY.
  apply Z.div_le_mono; lia.
Qed.

Lemma fixed_offset_reads_back off l : reads_back (fixed_offset off) l.
Proof. reflexivity. Qed.

(** So does the calendar of New York across the end of daylight saving time:
    the clock goes from 02:00 back to 01:00 of the same day. *)
Lemma new_york_never_steps_back : calendar_never_steps_back new_york_autumn_2026.
Proof.
  intros s s' Hs. cbn [utc_offset new_york_autumn_2026]. unfold SECS_PER_DAY.
  repeat case_decide; try (apply Z.div_le_mono; lia).
  etrans; [apply (Z.div_le_mono _ (1793512800 - 14400)); lia|].
  etrans; [|apply (Z.div_le_mono (1793512800 - 18000)); lia].
  by vm_compute.
Qed.
End Calendar.

(** X8: dates follow timestamps wherever the calendar of the session's zone
    never steps back a day, as under any fixed offset: a row stamped later
    never gets an earlier date, also across the epoch, where the division by
    1000 changes the side it truncates to. *)
Theorem later_rows_get_later_dates tz r r' :
  calendar_never_steps_back tz →
  timestamp r ≤ timestamp r' → date_of tz r ≤ date_of tz r'.
Proof.
  intros Hcal Hts. rewrite !date_of_eq. apply Hcal. by apply Z.quot_le_mono.
Qed.

Lemma later_rows_get_later_dates_witness :
  date_of (fixed_offset 3600) (Block None (-86400001)) ≤
    date_of (fixed_offset 3600) (Block (Some 4) 999) ∧
  date_of new_york_autumn_2026 (Block None 1793512799999) ≤
    date_of new_york_autumn_2026 (Block None 1793512800000).
Proof.
  split.
  - apply later_rows_get_later_dates; [apply fixed_offset_never_steps_back|by vm_compute].
  - apply later_rows_get_later_dates; [apply new_york_never_steps_back|by vm_compute].
Defined.

(** X9: a run after 1970 on a store with no row stamped after [now()], in a
    zone whose calendar never steps back and in which the wall-clock reading
    thirty days before [now()] exists: the dates of the answer lie between
    that day and today, so the answer has at most 31 records. *)
Theorem at_most_31_records now tz blocks :
  0 ≤ now →
  (∀ r, r ∈ blocks → 1000 * timestamp r ≤ now) →
  calendar_never_steps_back tz →
  reads_back tz (now `div` 1000000 + utc_offset tz (now `div` 1000000) - 30 * 86400) →
  (length (query now tz blocks) ≤ 31)%nat.
Proof.
  intros Hnow Hpast Hcal Hback.
  set (s := now `div` 1000000) in *.
  set (l := s + utc_offset tz s - 30 * 86400) in *.
  set (D := (s + utc_offset tz s) `div` 86400).
  assert (window_start_us now tz = (l - local_offset tz l) * 1000000 + now `mod` 1000000)
    as Hstart by reflexivity.
  assert (∀ d, d ∈ date <$> query now tz blocks → D - 30 ≤ d ≤ D) as Hrange.
  { intros d (r & Hr & Hw%in_window_iff & <-)%query_dates. rewrite date_of_eq.
    specialize (Hpast r Hr). rewrite Hstart in Hw.
    pose proof (Z.mod_pos_bound now 1000000 ltac:(lia)) as Hf. split.
    - replace (D - 30) with ((l - local_offset tz l +
                               utc_offset tz (l - local_offset tz l)) `div` 86400).
      + apply Hcal. apply second_after. lia.
      + unfold reads_back in Hback. rewrite Hback. unfold D, l.
        replace (s + utc_offset tz s - 30 * 86400 - local_offset tz (s + utc_offset tz s - 30 * 86400) +
                 local_offset tz (s + utc_offset tz s - 30 * 86400))
          with (s + utc_offset tz s + (-30) * 86400) by lia.
        rewrite Z.div_add by lia. lia.
    - apply Hcal. by apply second_before. }
  pose proof (aggregate_strict tz (Sql.where_ (in_window now tz) blocks)) as Hs.
  fold (query now tz blocks) in Hs.
  rewrite <-(length_fmap date).
  pose proof (strictly_ascending_length _ (D - 30) D Hs Hrange). lia.
Qed.

Lemma at_most_31_records_witness :
  let now := 1793793600 * 1000000 in
  let blocks := [Block (Some 1) ((1793793600 - 30 * 86400 - 1800) * 1000);
                 Block None (1793793600 * 1000)] in
  (length (query now new_york_autumn_2026 blocks) ≤ 31)%nat.
Proof.
  intros now blocks. apply at_most_31_records.
  - by vm_compute.
  - intros r Hr. unfold blocks in Hr.
    apply elem_of_cons in Hr as [->|Hr]; [by vm_compute|].
    apply elem_of_cons in Hr as [->|Hr]; [by vm_compute|].
    by apply not_elem_of_nil in Hr.
  - apply new_york_never_steps_back.
  - by vm_compute.
Defined.

Section Sliding.
Implicit Types (now d : Z) (tz : zone) (r : block) (blocks : list block).

(** When the window starts later the groups lose rows and gain none. *)
Lemma group_of_later now now' tz blocks d :
  window_start_us now tz ≤ window_start_us now' tz →
  group_of now' tz blocks d = filter (in_window now' tz) (group_of now tz blocks d).
Proof.
  intros Hnow. unfold group_of, Sql.where_. rewrite !list_filter_filter.
  apply list_filter_iff. intros r. rewrite !in_window_iff. split; [|tauto].
  intros [? ?]. split_and!; [done..|lia].
Qed.

Lemma count_distinct_sublist (rows rows' : list block) :
  rows `sublist_of` rows' →
  Sql.count_distinct creator_id rows ≤ Sql.count_distinct creator_id rows'.
Proof.
  intros Hsub. unfold Sql.count_distinct. apply inj_le, subseteq_size.
  intros c. rewrite !elem_of_list_to_set, !list_elem_of_omap.
  intros (r & Hr & Hc). exists r. split; [|done]. by eapply elem_of_sublist.
Qed.
End Sliding.

(** X10: on an unchanged store, a run whose window starts no earlier than that
    of another run sees no more than it: every record of its answer has a
    record of the same date in the other answer, with at least as many blocks
    and producers.  Under a fixed offset that is every later run. *)
Theorem later_run_sees_less now now' tz blocks :
  window_start_us now tz ≤ window_start_us now' tz →
  Forall (λ rec', ∃ rec, rec ∈ query now tz blocks ∧ date rec = date rec' ∧
                         blocks_per_day rec' ≤ blocks_per_day rec ∧
                         unique_producers rec' ≤ unique_producers rec)
         (query now' tz blocks).
Proof.
  intros Hnow. apply Forall_forall. intros rec' (d & Hne & ->)%elem_of_query.
  pose proof (group_of_later now now' tz blocks d Hnow) as Hg.
  assert (group_of now' tz blocks d `sublist_of` group_of now tz blocks d) as Hsub
    by (rewrite Hg; apply sublist_filter).
  exists (select (d, group_of now tz blocks d)). split_and!.
  - apply elem_of_query. exists d. split; [|done].
    intros Hnil. rewrite Hnil in Hsub. by apply sublist_nil_r in Hsub.
  - done.
  - unfold select, Sql.count_star. cbn [blocks_per_day snd].
    by apply inj_le, sublist_length.
  - unfold select. cbn [unique_producers snd]. by apply count_distinct_sublist.
Qed.

Lemma later_run_sees_less_witness :
  let blocks := [Block (Some 1) (20 * 86400000); Block (Some 2) (20 * 86400000 + 500)] in
  Forall (λ rec', ∃ rec, rec ∈ query (50 * 86400000000) (fixed_offset 7200) blocks ∧
                         date rec = date rec' ∧
                         blocks_per_day rec' ≤ blocks_per_day rec ∧
                         unique_producers rec' ≤ unique_producers rec)
         (query (50 * 86400000000 + 1000) (fixed_offset 7200) blocks).
Proof.
  intros blocks. apply later_run_sees_less. rewrite !window_start_fixed. lia.
Defined.

Section Splitting.
Implicit Types (now d : Z) (tz : zone) (r : block) (blocks : list block).

Lemma group_of_app now tz blocks1 blocks2 d :
  group_of now tz (blocks1 ++ blocks2) d =
  group_of now tz blocks1 d ++ group_of now tz blocks2 d.
Proof. unfold group_of. by rewrite where_app, filter_app. Qed.

Lemma group_of_nonempty now tz blocks d :
  group_of now tz blocks d ≠ [] ↔ ∃ r, r ∈ blocks ∧ in_window now tz r ∧ date_of tz r = d.
Proof.
  split.
  - destruct (group_of now tz blocks d) as [|r g] eqn:Hg; [done|]. intros _.
    exists r. apply elem_of_group_of. rewrite Hg. left.
  - intros (r & Hr) Hnil. apply elem_of_group_of in Hr. rewrite Hnil in Hr.
    by apply not_elem_of_nil in Hr.
Qed.
End Splitting.

(** X14: a store in two parts, the rows of the first all on earlier dates than
    the rows of the second (within the window): the answer on the whole is the
    answer on the first part followed by the answer on the second. *)
Theorem query_app_by_days now tz blocks1 blocks2 :
  (∀ r1 r2, r1 ∈ blocks1 → r2 ∈ blocks2 →
            window_start_us now tz < 1000 * timestamp r1 →
            window_start_us now tz < 1000 * timestamp r2 →
            date_of tz r1 < date_of tz r2) →
  query now tz (blocks1 ++ blocks2) = query now tz blocks1 ++ query now tz blocks2.
Proof.
  intros Hdays.
  assert (∀ d, group_of now tz blocks1 d ≠ [] → group_of now tz blocks2 d = []) as H12.
  { intros d (r1 & Hr1 & Hw1 & Hd1)%group_of_nonempty.
    destruct (group_of now tz blocks2 d) as [|r2 g] eqn:Hg; [done|].
    assert (r2 ∈ group_of now tz blocks2 d) as Hr2 by (rewrite Hg; left).
    apply elem_of_group_of in Hr2 as (Hr2 & Hw2 & Hd2).
    apply in_window_iff in Hw1, Hw2.
    specialize (Hdays r1 r2 Hr1 Hr2 Hw1 Hw2). lia. }
  assert (∀ d, group_of now tz blocks2 d ≠ [] → group_of now tz blocks1 d = []) as H21.
  { intros d Hne2. destruct (group_of now tz blocks1 d) as [|r g] eqn:Hg; [done|].
    exfalso. apply Hne2, H12. by rewrite Hg. }
  apply (StronglySorted_unique date_lt).
  - apply sorted_by_date, aggregate_strict.
  - apply StronglySorted_app. split_and!.
    + intros rec1 rec2 (d1 & Hne1 & ->)%elem_of_query (d2 & Hne2 & ->)%elem_of_query.
      unfold date_lt. cbn [date select fst].
      apply group_of_nonempty in Hne1 as (r1 & Hr1 & Hw1 & <-).
      apply group_of_nonempty in Hne2 as (r2 & Hr2 & Hw2 & <-).
      apply in_window_iff in Hw1, Hw2. by apply Hdays.
    + apply sorted_by_date, aggregate_strict.
    + apply sorted_by_date, aggregate_strict.
  - apply NoDup_Permutation.
    + apply (NoDup_fmap_1 date), aggregate_NoDup.
    + apply NoDup_app. split_and!.
      * apply (NoDup_fmap_1 date), aggregate_NoDup.
      * intros rec (d1 & Hne1 & ->)%elem_of_query (d2 & Hne2 & Heq)%elem_of_query.
        injection Heq as <- _ _. by apply Hne2, H12.
      * apply (NoDup_fmap_1 date), aggregate_NoDup.
    + intros rec. rewrite elem_of_app, !elem_of_query. split.
      * intros (d & Hne & ->). rewrite group_of_app in Hne |- *.
        destruct (decide (group_of now tz blocks1 d = [])) as [Hnil|Hne1].
        -- right. exists d. rewrite Hnil in Hne |- *. done.
        -- left. exists d. by rewrite (H12 d Hne1), app_nil_r.
      * intros [(d & Hne & ->)|(d & Hne & ->)]; exists d; rewrite group_of_app.
        -- by rewrite (H12 d Hne), app_nil_r.
        -- by rewrite (H21 d Hne).
Qed.

Lemma query_app_by_days_witness :
  let now := 40 * 86400000000 in
  let blocks1 := [Block (Some 1) (20 * 86400000); Block None (5 * 86400000)] in
  let blocks2 := [Block (Some 2) (22 * 86400000); Block (Some 1) (21 * 86400000)] in
  query now UTC (blocks1 ++ blocks2) = query now UTC blocks1 ++ query now UTC blocks2.
Proof.
  intros now blocks1 blocks2. apply query_app_by_days.
  intros r1 r2 Hr1 Hr2. unfold blocks1 in Hr1. unfold blocks2 in Hr2.
  apply elem_of_cons in Hr1 as [->|Hr1];
    [|apply elem_of_cons in Hr1 as [->|Hr1]; [|by apply not_elem_of_nil in Hr1]];
    (apply elem_of_cons in Hr2 as [->|Hr2];
      [|apply elem_of_cons in Hr2 as [->|Hr2]; [|by apply not_elem_of_nil in Hr2]]);
    by vm_compute.
Defined.

(** ** Of a run *)

(** X11: the script makes its calls in program order and has no handler: a run
    makes every call up to the first one that raises and none after it, and
    that exception is the one reported.  The exit status is 120 when a table
    left in the buffer of standard output is refused at exit; otherwise it is
    1 when a call raised and 0 when none did. *)
Theorem run_stops_at_first_raise w :
  calls_of (trace (run w)) = until_raise (raises w) program ∧
  stderr (run w) = Raised <$> List.find (raises w) program ∧
  exit_status (run w) =
    if bool_decide (store w = Accepted) && negb (query_fails w) &&
       bool_decide (stdout_mode w ≠ Unbuffered) && stdout_fails w
    then 120
    else match List.find (raises w) program with None => 0 | Some _ => 1 end.
Proof.
  unfold program. cbn [until_raise List.find raises].
  destruct (decide (store w = Accepted)) as [Hst|Hst].
  - rewrite (bool_decide_eq_true_2 _ Hst). run_cases w; done.
  - rewrite (bool_decide_eq_false_2 _ Hst). run_cases w; done.
Qed.

(** X12: when the store accepts the connection and then fails the query,
    [pd.read_sql_query] raises before [print] is reached: the failure is of the
    query kind, the exit status is not zero, nothing is printed and no
    plotting call is made. *)
Theorem query_failure_prints_nothing w :
  store w = Accepted → query_fails w = true →
  trace (run w) = [Call Connect; Call ReadSqlQuery] ∧
  kind_of <$> stderr (run w) = Some QueryError ∧
  exit_status (run w) ≠ 0 ∧
  stdout (run w) = [].
Proof. intros Hst Hq. run_cases w; done. Qed.

Lemma query_failure_prints_nothing_witness :
  let w := World 0 UTC [Block (Some 1) 5] Accepted true BlockBuffered false false false false in
  trace (run w) = [Call Connect; Call ReadSqlQuery] ∧
  kind_of <$> stderr (run w) = Some QueryError ∧
  exit_status (run w) ≠ 0 ∧
  stdout (run w) = [].
Proof. intros w. by apply (query_failure_prints_nothing w). Defined.

(** X13: standard output receives the answer of the query, once, when the
    connection and the query went through and the device takes what is
    written to it, and nothing otherwise; what [df.plot], [plt.title] and
    [plt.show] do does not change it.  Written through, the table is out
    before [df.plot] is called; block-buffered, it is the last thing the run
    does. *)
Theorem stdout_is_the_answer_or_nothing w :
  stdout (run w) =
    (if bool_decide (store w = Accepted) && negb (query_fails w) && negb (stdout_fails w)
     then [query (clock w) (time_zone w) (table w)]
     else []) ∧
  (stdout (run w) ≠ [] →
   if decide (stdout_mode w = BlockBuffered)
   then ∃ calls, trace (run w) = calls ++ [Stdout (df_of w)] ∧
                 Call Print ∈ calls ∧ Call Plot ∈ calls
   else ∃ post, trace (run w) =
                  [Call Connect; Call ReadSqlQuery; Call Print; Stdout (df_of w)] ++ post ∧
                Call Plot ∈ post).
Proof.
  split.
  - destruct (decide (store w = Accepted)) as [Hst|Hst].
    + rewrite (bool_decide_eq_true_2 _ Hst). run_cases w; done.
    + rewrite (bool_decide_eq_false_2 _ Hst). run_cases w; done.
  - intros Hout. run_cases w; try done.
    all: case_decide; try done.
    all: lazymatch goal with
         | |- ∃ calls, ?t = calls ++ [_] ∧ _ => exists (take (length t - 1) t)
         | |- _ => eexists
         end.
    all: split; [reflexivity|cbn; set_unfold; intuition].
Qed.

Lemma stdout_is_the_answer_or_nothing_witness :
  let blocks := [Block (Some 7) (20 * 86400000 + 5)] in
  let w := World (40 * 86400000000) UTC blocks Accepted false BlockBuffered false false false true in
  stdout (run w) = [[Daily 20 1 1]] ∧
  ∃ calls, trace (run w) = calls ++ [Stdout [Daily 20 1 1]] ∧
           Call Print ∈ calls ∧ Call Plot ∈ calls.
Proof.
  intros blocks w.
  destruct (stdout_is_the_answer_or_nothing w) as [Hout Hwhen].
  split; [by rewrite Hout|]. apply Hwhen. by rewrite Hout.
Defined.
